(** * The retail checkout flow of [ecommerce.js]

    A shallow embedding of the product classes, the cart, the customer,
    the shipping service and [checkout], followed by the properties of
    the specification that concern them.

    Modelling conventions.
    - JavaScript numbers are binary64 floating-point numbers.  The
      model holds those that are integers, as integers of [Z], and
      rounds the result of every addition, subtraction and
      multiplication to the nearest binary64 number, ties to the even
      mantissa, as the code does ([round64]): up to 2^53 in magnitude
      the arithmetic is exact, beyond it the low bits are lost.
      Comparisons are exact.  [NaN], fractional values, and magnitudes
      from 2^1024 on, where the code has [Infinity], are outside the
      model.  Dates are milliseconds and are only compared.
    - Products and customers are objects shared by reference: they live
      in a store indexed by references, a cart item holds the reference
      of its product, and two items may hold the same one.
    - A method that can throw or mutate is a computation of the monad
      [M]: it receives the world and returns a completion (a value or a
      thrown error) with the world it leaves behind.  A throw does not
      undo the mutations made before it.
    - [console.log] appends one line to the console of the world.  Lines
      are kept structured: the numbers they interpolate are stored
      before their conversion to text.
    - [new Date()] reads the field [today] of the world; one run of
      [checkout] observes a single instant. *)

From Stdlib Require Import String ZArith List Bool Lia.
From Stdlib Require Import Floats.SpecFloat.
Import ListNotations.
Local Open Scope Z_scope.

(** ** Numbers *)

(** The mantissa next to [q + r / (2 * h)]: the nearer of [q] and
    [q + 1], and the even one when [r] is the half [h]. *)
Definition nearest (q r h : Z) : Z :=
  if r <? h then q
  else if h <? r then q + 1
  else if Z.even q then q else q + 1.

(** The binary64 number nearest to a natural number: itself below 2^53,
    and otherwise a mantissa of 53 bits times the power of two that the
    length of the number leaves.  The exponent is not bounded: the
    numbers of the model are the finite ones, below 2^1024, and a
    result from 2^1024 on, which is [Infinity] in the code, is outside
    it as [NaN] is. *)
Definition roundN (n : Z) : Z :=
  if n <? 2 ^ 53 then n
  else
    let e := Z.log2 n - 52 in
    nearest (n / 2 ^ e) (n mod 2 ^ e) (2 ^ (e - 1)) * 2 ^ e.

Definition round64 (z : Z) : Z := Z.sgn z * roundN (Z.abs z).

(** [x + y], [x - y] and [x * y] of the code *)
Definition fadd (x y : Z) : Z := round64 (x + y).
Definition fsub (x y : Z) : Z := round64 (x - y).
Definition fmul (x y : Z) : Z := round64 (x * y).

(** The integer is a binary64 number. *)
Definition isDouble (z : Z) : bool := round64 z =? z.

(** The same operations as the Standard Library specifies them for
    binary64, to compare with. *)
Definition toSF (z : Z) : spec_float := binary_normalize 53 1024 z 0 false.

Definition ofSF (f : spec_float) : option Z :=
  match f with
  | S754_zero _ => Some 0
  | S754_finite s m e =>
      if e <? 0 then
        if Z.pos m mod 2 ^ (- e) =? 0
        then Some ((if s then -1 else 1) * (Z.pos m / 2 ^ (- e)))
        else None
      else Some ((if s then -1 else 1) * Z.pos m * 2 ^ e)
  | _ => None
  end.

Definition agrees (op : Z -> Z -> Z) (sf : spec_float -> spec_float -> spec_float)
           (x y : Z) : bool :=
  match ofSF (sf (toSF x) (toSF y)) with
  | Some z => z =? op x y
  | None => false
  end.

Definition samples : list Z :=
  [0; 1; -1; 3; 30; 1000; 2 ^ 53 - 1; 2 ^ 53; 2 ^ 53 + 2; 2 ^ 53 + 4;
   - (2 ^ 53 + 2); 2 ^ 54 - 2; 2 ^ 54 + 4; 2 ^ 54 + 12; 9007199254740991;
   27021597764222972; 2 ^ 60 + 512; 3 * 2 ^ 100; - (3 * 2 ^ 100); 2 ^ 200].

(** ** Objects *)

Definition PRef := nat.
Definition CRef := nat.

(** The three classes [Product], [PerishableProduct] and
    [ShippableProduct], with the fields each subclass adds. *)
Inductive productClass : Type :=
| PlainProduct
| PerishableProduct (expiryDate : Z) (weight : Z)
| ShippableProduct (weight : Z).

Record product : Type := mkProduct {
  p_name : string;
  p_price : Z;
  p_quantity : Z;
  p_class : productClass
}.

Record customer : Type := mkCustomer {
  c_name : string;
  c_balance : Z
}.

Record cartItem : Type := mkCartItem {
  i_product : PRef;
  i_quantity : Z
}.

Record cart : Type := mkCart {
  items : list cartItem
}.

(** The [Error] objects thrown, by the message they carry. *)
Inductive error : Type :=
| EmptyCart                                     (* "Cart is empty" *)
| ExpiredProduct (name : string)                (* "<name> is expired" *)
| OutOfStock (name : string)                    (* "<name> is out of stock" *)
| InsufficientStock (name : string)             (* "Cannot add more than available stock for <name>" *)
| InsufficientBalance (required available : Z). (* "Insufficient balance. Required: .., Available: .." *)

(** The lines written by [console.log]. *)
Inductive line : Type :=
| ShipmentNotice                                   (* "** Shipment notice **" *)
| ShipmentItem (quantity : Z) (name : string) (grams : Z)
| PackageWeight (grams : Z)                        (* "Total package weight <grams/1000>kg" *)
| CheckoutReceipt                                  (* "** Checkout receipt **" *)
| ReceiptItem (quantity : Z) (name : string) (total : Z)
| Separator                                        (* "----------------------" *)
| SubtotalLine (subtotal : Z)
| ShippingLine (shippingFee : Z)
| AmountLine (total : Z)
| BalanceLine (balance : Z).

Record world : Type := mkWorld {
  products : PRef -> product;
  customers : CRef -> customer;
  today : Z;
  console : list line
}.

(** ** The monad of methods *)

Inductive completion (A : Type) : Type :=
| Return (a : A)
| Throw (e : error).
Arguments Return {A} a.
Arguments Throw {A} e.

Definition M (A : Type) : Type := world -> completion A * world.

Definition ret {A : Type} (a : A) : M A := fun w => (Return a, w).

Definition bind {A B : Type} (m : M A) (k : A -> M B) : M B :=
  fun w =>
    match m w with
    | (Return a, w') => k a w'
    | (Throw e, w') => (Throw e, w')
    end.

Definition throw {A : Type} (e : error) : M A := fun w => (Throw e, w).

Declare Scope js_scope.
Delimit Scope js_scope with js.
Notation "x <- c1 ;; c2" := (bind c1 (fun x => c2))
  (at level 100, c1 at next level, right associativity) : js_scope.
Notation "c1 ;; c2" := (bind c1 (fun _ => c2))
  (at level 100, right associativity) : js_scope.
Local Open Scope js_scope.

Definition update {A : Type} (f : nat -> A) (r : nat) (a : A) : nat -> A :=
  fun r' => if Nat.eqb r' r then a else f r'.

Definition readProduct (r : PRef) : M product :=
  fun w => (Return (products w r), w).

Definition writeProduct (r : PRef) (p : product) : M unit :=
  fun w => (Return tt,
            mkWorld (update (products w) r p) (customers w) (today w) (console w)).

Definition readCustomer (r : CRef) : M customer :=
  fun w => (Return (customers w r), w).

Definition writeCustomer (r : CRef) (c : customer) : M unit :=
  fun w => (Return tt,
            mkWorld (products w) (update (customers w) r c) (today w) (console w)).

(** [new Date()] *)
Definition newDate : M Z := fun w => (Return (today w), w).

(** [console.log(l)] *)
Definition log (l : line) : M unit :=
  fun w => (Return tt,
            mkWorld (products w) (customers w) (today w) (console w ++ [l])).

(** [Array.prototype.forEach] and [for (const x of xs)]: the body runs
    on each element in order, and a throw leaves the loop. *)
Fixpoint forEach {A : Type} (body : A -> M unit) (xs : list A) : M unit :=
  match xs with
  | [] => ret tt
  | x :: xs' => body x ;; forEach body xs'
  end.

(** [Array.prototype.reduce] with an initial value. *)
Fixpoint reduce {A B : Type} (f : B -> A -> M B) (acc : B) (xs : list A) : M B :=
  match xs with
  | [] => ret acc
  | x :: xs' => acc' <- f acc x ;; reduce f acc' xs'
  end.

(** [Array.prototype.filter] *)
Fixpoint filter {A : Type} (keep : A -> M bool) (xs : list A) : M (list A) :=
  match xs with
  | [] => ret []
  | x :: xs' =>
      b <- keep x ;;
      rest <- filter keep xs' ;;
      ret (if b then x :: rest else rest)
  end.

(** ** Product classes *)

Module Product.

Definition isExpired (this : PRef) : M bool :=
  p <- readProduct this ;;
  match p_class p with
  | PerishableProduct expiryDate _ =>
      today <- newDate ;;
      ret (expiryDate <? today)
  | _ => ret false
  end.

Definition isShippable (this : PRef) : M bool :=
  p <- readProduct this ;;
  match p_class p with
  | PlainProduct => ret false
  | _ => ret true
  end.

Definition getName (this : PRef) : M string :=
  p <- readProduct this ;;
  ret (p_name p).

Definition getWeight (this : PRef) : M Z :=
  p <- readProduct this ;;
  match p_class p with
  | PlainProduct => ret 0
  | PerishableProduct _ weight => ret weight
  | ShippableProduct weight => ret weight
  end.

Definition reduceQuantity (this : PRef) (qty : Z) : M unit :=
  p <- readProduct this ;;
  if p_quantity p <? qty then
    throw (OutOfStock (p_name p))
  else
    writeProduct this
      (mkProduct (p_name p) (p_price p) (fsub (p_quantity p) qty) (p_class p)).

End Product.

(** ** Cart and customer *)

Module CartItem.

Definition getTotalPrice (this : cartItem) : M Z :=
  p <- readProduct (i_product this) ;;
  ret (fmul (p_price p) (i_quantity this)).

Definition getProductName (this : cartItem) : M string :=
  p <- readProduct (i_product this) ;;
  ret (p_name p).

Definition getWeight (this : cartItem) : M Z :=
  w <- Product.getWeight (i_product this) ;;
  ret (fmul w (i_quantity this)).

Definition isShippable (this : cartItem) : M bool :=
  Product.isShippable (i_product this).

Definition isExpired (this : cartItem) : M bool :=
  Product.isExpired (i_product this).

End CartItem.

Module Cart.

(** [new Cart()] *)
Definition new : cart := mkCart [].

(** The cart object is owned by its caller: [add] returns the cart
    with the item pushed. *)
Definition add (this : cart) (product : PRef) (quantity : Z) : M cart :=
  p <- readProduct product ;;
  if quantity >? p_quantity p then
    throw (InsufficientStock (p_name p))
  else
    ret (mkCart (items this ++ [mkCartItem product quantity])).

Definition isEmpty (this : cart) : M bool :=
  ret (Nat.eqb (length (items this)) 0).

Definition getItems (this : cart) : M (list cartItem) :=
  ret (items this).

Definition getSubtotal (this : cart) : M Z :=
  reduce (fun sum item => t <- CartItem.getTotalPrice item ;; ret (fadd sum t))
         0 (items this).

Definition getShippableItems (this : cart) : M (list cartItem) :=
  filter (fun item => CartItem.isShippable item) (items this).

Definition getTotalWeight (this : cart) : M Z :=
  shippable <- getShippableItems this ;;
  reduce (fun total item => g <- CartItem.getWeight item ;; ret (fadd total g))
         0 shippable.

End Cart.

Module Customer.

Definition pay (this : CRef) (amount : Z) : M unit :=
  c <- readCustomer this ;;
  if c_balance c <? amount then
    throw (InsufficientBalance amount (c_balance c))
  else
    writeCustomer this (mkCustomer (c_name c) (fsub (c_balance c) amount)).

Definition getBalance (this : CRef) : M Z :=
  c <- readCustomer this ;;
  ret (c_balance c).

End Customer.

(** ** Shipping service *)

Module ShippingService.

Definition ship (items : list cartItem) : M unit :=
  log ShipmentNotice ;;
  forEach (fun item =>
             name <- CartItem.getProductName item ;;
             g <- CartItem.getWeight item ;;
             log (ShipmentItem (i_quantity item) name g))
          items ;;
  totalWeight <-
    reduce (fun sum item => g <- CartItem.getWeight item ;; ret (fadd sum g))
           0 items ;;
  log (PackageWeight totalWeight).

End ShippingService.

(** ** Checkout process *)

Definition checkout (customer : CRef) (cart : cart) : M unit :=
  empty <- Cart.isEmpty cart ;;
  if (empty : bool) then throw EmptyCart else
  cartItems <- Cart.getItems cart ;;
  forEach (fun item =>
             expired <- CartItem.isExpired item ;;
             if (expired : bool) then
               name <- CartItem.getProductName item ;;
               throw (ExpiredProduct name)
             else
               Product.reduceQuantity (i_product item) (i_quantity item))
          cartItems ;;
  subtotal <- Cart.getSubtotal cart ;;
  totalWeight <- Cart.getTotalWeight cart ;;
  let shippingFee := if totalWeight >? 0 then 30 else 0 in
  let total := fadd subtotal shippingFee in
  Customer.pay customer total ;;
  shippableItems <- Cart.getShippableItems cart ;;
  (if (0 <? length shippableItems)%nat
   then ShippingService.ship shippableItems
   else ret tt) ;;
  log CheckoutReceipt ;;
  receiptItems <- Cart.getItems cart ;;
  forEach (fun item =>
             name <- CartItem.getProductName item ;;
             t <- CartItem.getTotalPrice item ;;
             log (ReceiptItem (i_quantity item) name t))
          receiptItems ;;
  log Separator ;;
  log (SubtotalLine subtotal) ;;
  log (ShippingLine shippingFee) ;;
  log (AmountLine total) ;;
  balance <- Customer.getBalance customer ;;
  log (BalanceLine balance).

(** ** What the queries observe

    The values the specification speaks of, as functions of the world:
    they are compared below with what the methods compute. *)

Definition stock (w : world) (r : PRef) : Z := p_quantity (products w r).

Definition expired (w : world) (r : PRef) : bool :=
  match p_class (products w r) with
  | PerishableProduct expiryDate _ => expiryDate <? today w
  | _ => false
  end.

Definition shippable (w : world) (r : PRef) : bool :=
  match p_class (products w r) with
  | PlainProduct => false
  | _ => true
  end.

Definition weight (w : world) (r : PRef) : Z :=
  match p_class (products w r) with
  | PlainProduct => 0
  | PerishableProduct _ g => g
  | ShippableProduct g => g
  end.

(** The sum of a list as the code computes it: from 0, left to right,
    each addition rounded. *)
Definition sumOf (l : list Z) : Z := fold_left fadd l 0.


(** price times requested quantity *)
Definition itemTotal (w : world) (item : cartItem) : Z :=
  fmul (p_price (products w (i_product item))) (i_quantity item).

(** product weight times requested quantity *)
Definition itemWeight (w : world) (item : cartItem) : Z :=
  fmul (weight w (i_product item)) (i_quantity item).

Definition subtotalOf (w : world) (l : list cartItem) : Z :=
  sumOf (map (itemTotal w) l).

Definition shippableOf (w : world) (l : list cartItem) : list cartItem :=
  List.filter (fun item => shippable w (i_product item)) l.

Definition shippableWeightOf (w : world) (l : list cartItem) : Z :=
  sumOf (map (itemWeight w) (shippableOf w l)).


(** What the product [r] has left once the items of [served] have been
    served in order: each of them that refers to [r] has lowered its
    stock by the quantity it requests. *)
Definition remaining (w : world) (served : list cartItem) (r : PRef) : Z :=
  fold_left (fun left item =>
               if Nat.eqb (i_product item) r then fsub left (i_quantity item) else left)
            served (stock w r).

Definition noneExpired (w : world) (l : list cartItem) : bool :=
  forallb (fun item => negb (expired w (i_product item))) l.

(** Every item of [rest] requests at most what its product has left
    once the items before it ([pre], then the earlier items of [rest])
    have been served. *)
Fixpoint sufficientFrom (w : world) (pre rest : list cartItem) : bool :=
  match rest with
  | [] => true
  | item :: rest' =>
      (i_quantity item <=? remaining w pre (i_product item))
      && sufficientFrom w (pre ++ [item]) rest'
  end.

Definition sufficientStock (w : world) (l : list cartItem) : bool :=
  sufficientFrom w [] l.

(** The products of [w'] are those of [w] with the stock of each as
    the items of [served] leave it. *)
Definition reducedProducts (served : list cartItem) (w w' : world) : Prop :=
  forall r,
    products w' r =
    mkProduct (p_name (products w r)) (p_price (products w r))
              (remaining w served r) (p_class (products w r)).

(** [w'] is [w] with the stock reduced for [served], and nothing else
    changed. *)
Definition stockReducedBy (served : list cartItem) (w w' : world) : Prop :=
  reducedProducts served w w'
  /\ customers w' = customers w
  /\ today w' = today w
  /\ console w' = console w.

(** The body of the loop over the cart items, and the steps that follow
    it, as they stand in [checkout]. *)
Definition stockStep (item : cartItem) : M unit :=
  expired <- CartItem.isExpired item ;;
  if (expired : bool) then
    name <- CartItem.getProductName item ;;
    throw (ExpiredProduct name)
  else
    Product.reduceQuantity (i_product item) (i_quantity item).

Definition receiptStep (item : cartItem) : M unit :=
  name <- CartItem.getProductName item ;;
  t <- CartItem.getTotalPrice item ;;
  log (ReceiptItem (i_quantity item) name t).

Definition report (customer : CRef) (cart : cart) (subtotal shippingFee total : Z) : M unit :=
  shippableItems <- Cart.getShippableItems cart ;;
  (if (0 <? length shippableItems)%nat
   then ShippingService.ship shippableItems
   else ret tt) ;;
  log CheckoutReceipt ;;
  receiptItems <- Cart.getItems cart ;;
  forEach receiptStep receiptItems ;;
  log Separator ;;
  log (SubtotalLine subtotal) ;;
  log (ShippingLine shippingFee) ;;
  log (AmountLine total) ;;
  balance <- Customer.getBalance customer ;;
  log (BalanceLine balance).

Definition settle (customer : CRef) (cart : cart) : M unit :=
  subtotal <- Cart.getSubtotal cart ;;
  totalWeight <- Cart.getTotalWeight cart ;;
  let shippingFee := if totalWeight >? 0 then 30 else 0 in
  let total := fadd subtotal shippingFee in
  Customer.pay customer total ;;
  report customer cart subtotal shippingFee total.

(** [getShippableItems] and [getTotalWeight] call the two methods of
    the items by name.  Here is their text over any two such methods,
    whatever weight these give to an item that they do not ship. *)
Section ItemMethods.

Variable isShippable : cartItem -> M bool.
Variable getWeight : cartItem -> M Z.



End ItemMethods.

(** A method is a reader when it returns a value and leaves the world
    as it found it. *)
Definition reads {B : Type} (m : M B) (v : world -> B) : Prop :=
  forall w, m w = (Return (v w), w).

(** The world with other console contents. *)
Definition withConsole (w : world) (out : list line) : world :=
  mkWorld (products w) (customers w) (today w) out.

(** The lines of a shipment notice for the items [l]. *)
Definition shipmentLine (w : world) (item : cartItem) : line :=
  ShipmentItem (i_quantity item) (p_name (products w (i_product item)))
               (itemWeight w item).

Definition shipmentLines (w : world) (l : list cartItem) : list line :=
  ShipmentNotice :: map (shipmentLine w) l ++ [PackageWeight (sumOf (map (itemWeight w) l))].

(** The lines of a checkout receipt. *)
Definition receiptLine (w : world) (item : cartItem) : line :=
  ReceiptItem (i_quantity item) (p_name (products w (i_product item)))
              (itemTotal w item).

Definition receiptLines (w : world) (l : list cartItem)
           (subtotal shippingFee total balance : Z) : list line :=
  CheckoutReceipt :: map (receiptLine w) l
  ++ [Separator; SubtotalLine subtotal; ShippingLine shippingFee;
      AmountLine total; BalanceLine balance].

(** The shipping fee of a cart. *)
Definition shippingFeeOf (w : world) (l : list cartItem) : Z :=
  if shippableWeightOf w l >? 0 then 30 else 0.

Definition totalOf (w : world) (l : list cartItem) : Z :=
  fadd (subtotalOf w l) (shippingFeeOf w l).

(** What a checkout that goes through writes to the console. *)
Definition checkoutLines (w : world) (l : list cartItem) (balance : Z) : list line :=
  (if (0 <? length (shippableOf w l))%nat then shipmentLines w (shippableOf w l) else [])
  ++ receiptLines w l (subtotalOf w l) (shippingFeeOf w l) (totalOf w l) balance.

(** ** The demonstration at the end of the file

    The four products and the customer of the demonstration; [now] is
    the instant at which it runs.  The expiry date "2025-08-01" is
    1754006400000 milliseconds after the epoch. *)

Definition cheese : product :=
  mkProduct "Cheese" 100 5 (PerishableProduct 1754006400000 200).
Definition biscuits : product :=
  mkProduct "Biscuits" 150 2 (PerishableProduct 1754006400000 700).
Definition tv : product :=
  mkProduct "TV" 300 10 (ShippableProduct 10000).
Definition scratchCard : product :=
  mkProduct "Scratch Card" 50 10 PlainProduct.

Definition demoProducts : PRef -> product :=
  fun r =>
    match r with
    | 0%nat => cheese
    | 1%nat => biscuits
    | 2%nat => tv
    | 3%nat => scratchCard
    | _ => mkProduct "" 0 0 PlainProduct
    end.

Definition ali : customer := mkCustomer "Ali" 1000.

Definition demoWorld (now : Z) : world :=
  mkWorld demoProducts (fun _ => ali) now [].

(** an instant before the expiry date, and one after it *)
Definition july2025 : Z := 1751328000000.
Definition november2026 : Z := 1793664000000.

Definition demoCart : cart :=
  mkCart [mkCartItem 0%nat 2; mkCartItem 1%nat 1; mkCartItem 3%nat 1].




(** Prices beyond the integers that binary64 holds exactly: 2^53 for
    the gold, 1 for the pin, and a customer who owns 2^53. *)
Definition gold : product := mkProduct "Gold" (2 ^ 53) 5 PlainProduct.
Definition pin : product := mkProduct "Pin" 1 5 PlainProduct.

Definition goldWorld : world :=
  mkWorld (fun r => match r with 0%nat => gold | _ => pin end)
          (fun _ => mkCustomer "Ali" (2 ^ 53)) july2025 [].

Definition goldCart : cart :=
  mkCart [mkCartItem 0%nat 1; mkCartItem 1%nat 1].

(** A product of which more than 2^53 may be on hand, at no price. *)
Definition bulk (onHand : Z) : product := mkProduct "Bulk" 0 onHand PlainProduct.

Definition bulkWorld (onHand : Z) : world :=
  mkWorld (fun _ => bulk onHand) (fun _ => ali) july2025 [].

(** The world at another instant. *)
Definition atDate (w : world) (now : Z) : world :=
  mkWorld (products w) (customers w) now (console w).

(** ** The phases of checkout *)

Lemma checkout_phases customer cart :
  checkout customer cart =
  (empty <- Cart.isEmpty cart ;;
   if (empty : bool) then throw EmptyCart else
   cartItems <- Cart.getItems cart ;;
   forEach stockStep cartItems ;;
   settle customer cart).
Proof. reflexivity. Qed.

(** ** Rounding *)

(** On these numbers the three operations give what the Standard
    Library specifies for binary64. *)
Example operations_agree_with_binary64 :
  forallb (fun x =>
             forallb (fun y =>
                        agrees fadd (SFadd 53 1024) x y
                        && agrees fsub (SFsub 53 1024) x y
                        && agrees fmul (SFmul 53 1024) x y)
                     samples)
          samples
  = true.
Proof. vm_compute. reflexivity. Qed.

Example rounding_beyond_2_53 :
  fadd (2 ^ 53) 1 = 2 ^ 53
  /\ fsub 9007199254740994 1 = 9007199254740992
  /\ fsub (2 ^ 53 + 4) 1 = 2 ^ 53 + 4
  /\ fmul 9007199254740991 3 = 27021597764222972.
Proof. vm_compute. repeat split. Qed.

Lemma nearest_bounds q r h : q <= nearest q r h <= q + 1.
Proof. unfold nearest. destruct (r <? h), (h <? r), (Z.even q); lia. Qed.

Lemma nearest_mono q r1 r2 h : r1 <= r2 -> nearest q r1 h <= nearest q r2 h.
Proof.
  intro H. unfold nearest.
  destruct (Z.ltb_spec r1 h), (Z.ltb_spec h r1), (Z.ltb_spec r2 h), (Z.ltb_spec h r2),
    (Z.even q); lia.
Qed.

Lemma roundN_small n : n < 2 ^ 53 -> roundN n = n.
Proof. intro H. unfold roundN. destruct (Z.ltb_spec n (2 ^ 53)); [reflexivity | lia]. Qed.

(** A number from 2^53 on is [q * 2^e + r] with a 53-bit [q]. *)
Lemma roundN_large n :
  2 ^ 53 <= n ->
  exists e q r h,
    e = Z.log2 n - 52 /\ 1 <= e /\ 0 < h /\ 2 ^ e = 2 * h
    /\ n = q * (2 * h) + r /\ 0 <= r < 2 * h
    /\ 2 ^ 52 <= q < 2 ^ 53
    /\ roundN n = nearest q r h * (2 * h).
Proof.
  intro Hn.
  assert (Hpos : 0 < n) by (assert (0 < 2 ^ 53) by reflexivity; lia).
  assert (HL : 53 <= Z.log2 n).
  { change 53 with (Z.log2 (2 ^ 53)). apply Z.log2_le_mono. exact Hn. }
  destruct (Z.log2_spec n Hpos) as [Hlo Hhi].
  set (e := Z.log2 n - 52) in *.
  assert (He : 1 <= e) by (unfold e; lia).
  assert (Hpow : 2 ^ e = 2 * 2 ^ (e - 1)).
  { replace e with (Z.succ (e - 1)) at 1 by lia. apply Z.pow_succ_r. lia. }
  assert (Hh : 0 < 2 ^ (e - 1)) by (apply Z.pow_pos_nonneg; lia).
  assert (HLe : 2 ^ Z.log2 n = 2 ^ 52 * 2 ^ e).
  { rewrite <- Z.pow_add_r by lia. f_equal. unfold e. lia. }
  assert (HLe' : 2 ^ Z.succ (Z.log2 n) = 2 ^ 53 * 2 ^ e).
  { rewrite <- Z.pow_add_r by lia. f_equal. unfold e. lia. }
  exists e, (n / 2 ^ e), (n mod 2 ^ e), (2 ^ (e - 1)).
  assert (H2e : 0 < 2 ^ e) by lia.
  pose proof (Z.div_mod n (2 ^ e) ltac:(lia)) as Hdm.
  pose proof (Z.mod_pos_bound n (2 ^ e) H2e) as Hr.
  split; [reflexivity|]. split; [exact He|]. split; [exact Hh|]. split; [exact Hpow|].
  rewrite <- Hpow. split; [lia|]. split; [exact Hr|]. split.
  - split.
    + apply Z.div_le_lower_bound; lia.
    + apply Z.div_lt_upper_bound; lia.
  - unfold roundN. destruct (Z.ltb_spec n (2 ^ 53)); [lia|].
    fold e. cbv zeta. reflexivity.
Qed.

Lemma roundN_nonneg n : 0 <= n -> 0 <= roundN n.
Proof.
  intro H. destruct (Z.lt_ge_cases n (2 ^ 53)) as [Hs|Hl].
  - now rewrite roundN_small.
  - destruct (roundN_large n Hl) as (e & q & r & h & _ & _ & Hh & _ & _ & _ & Hq & ->).
    pose proof (nearest_bounds q r h). assert (0 < 2 ^ 52) by reflexivity. nia.
Qed.

Lemma roundN_pos n : 0 < n -> 0 < roundN n.
Proof.
  intro H. destruct (Z.lt_ge_cases n (2 ^ 53)) as [Hs|Hl].
  - now rewrite roundN_small.
  - destruct (roundN_large n Hl) as (e & q & r & h & _ & _ & Hh & _ & _ & _ & Hq & ->).
    pose proof (nearest_bounds q r h). assert (0 < 2 ^ 52) by reflexivity. nia.
Qed.

Lemma roundN_mono a b : 0 <= a -> a <= b -> roundN a <= roundN b.
Proof.
  intros Ha Hab.
  destruct (Z.lt_ge_cases b (2 ^ 53)) as [Hbs|Hbl].
  { rewrite !roundN_small by lia. exact Hab. }
  destruct (roundN_large b Hbl)
    as (eb & qb & rb & hb & Eeb & Heb & Hhb & Hpb & Hb & Hrb & Hqb & ->).
  pose proof (nearest_bounds qb rb hb) as Hnb.
  destruct (Z.lt_ge_cases a (2 ^ 53)) as [Has|Hal].
  { rewrite roundN_small by lia.
    assert (2 ^ 53 <= qb * (2 * hb)); [|nia].
    change (2 ^ 53) with (2 ^ 52 * 2). nia. }
  destruct (roundN_large a Hal)
    as (ea & qa & ra & ha & Eea & Hea & Hha & Hpa & Haeq & Hra & Hqa & ->).
  pose proof (nearest_bounds qa ra ha) as Hna.
  assert (Hle : ea <= eb).
  { subst ea eb. assert (Z.log2 a <= Z.log2 b) by (apply Z.log2_le_mono; lia). lia. }
  destruct (Z.eq_dec ea eb) as [Heq|Hneq].
  - assert (ha = hb) by (rewrite Heq in Hpa; lia). subst hb.
    destruct (Z.lt_ge_cases qa qb) as [Hq|Hq].
    + nia.
    + assert (qa = qb) by nia. subst qb.
      assert (ra <= rb) by nia.
      pose proof (nearest_mono qa ra rb ha H). nia.
  - assert (Hlt : ea + 1 <= eb) by lia.
    assert (2 * (2 * ha) <= 2 * hb).
    { rewrite <- Hpa, <- Hpb.
      replace (2 * 2 ^ ea) with (2 ^ (ea + 1)) by (rewrite Z.pow_add_r by lia; lia).
      apply Z.pow_le_mono_r; lia. }
    assert (nearest qa ra ha * (2 * ha) <= 2 ^ 53 * (2 * ha)) by nia.
    assert (2 ^ 52 * (2 * hb) <= nearest qb rb hb * (2 * hb)) by nia.
    change (2 ^ 53) with (2 ^ 52 * 2) in H0. nia.
Qed.

Lemma roundN_idem n : 0 <= n -> roundN (roundN n) = roundN n.
Proof.
  intro Hn. destruct (Z.lt_ge_cases n (2 ^ 53)) as [Hs|Hl].
  { now rewrite !roundN_small by (rewrite ?roundN_small; lia). }
  destruct (roundN_large n Hl)
    as (e & q & r & h & Ee & He & Hh & Hp & Hneq & Hr & Hq & E).
  pose proof (nearest_bounds q r h) as Hk.
  set (k := nearest q r h) in *.
  assert (HR : 2 ^ 53 <= roundN n).
  { rewrite E. change (2 ^ 53) with (2 ^ 52 * 2). nia. }
  destruct (roundN_large (roundN n) HR)
    as (e' & q' & r' & h' & Ee' & He' & Hh' & Hp' & Hneq' & Hr' & Hq' & E').
  rewrite E'. rewrite E in Hneq'.
  assert (Hpos : 0 < roundN n) by (assert (0 < 2 ^ 53) by reflexivity; lia).
  destruct (Z.eq_dec k (2 ^ 53)) as [Hk53|Hk53].
  - (* the mantissa carried into the next binade *)
    assert (HL : Z.log2 (roundN n) = 53 + e).
    { apply Z.log2_unique; [lia|]. rewrite E, Hk53, <- Hp.
      replace (Z.succ (53 + e)) with (53 + e + 1) by lia.
      rewrite !Z.pow_add_r by lia. change (2 ^ 1) with 2.
      assert (0 < 2 ^ 53 * 2 ^ e) by (apply Z.mul_pos_pos; [reflexivity | lia]).
      lia. }
    assert (He'e : e' = e + 1) by lia.
    assert (Hh'e : h' = 2 * h).
    { assert (2 ^ e' = 2 * 2 ^ e).
      { rewrite He'e, Z.pow_add_r by lia. change (2 ^ 1) with 2. lia. }
      lia. }
    subst h'. rewrite Hk53 in Hneq'.
    assert (q' = 2 ^ 52 /\ r' = 0) as [-> ->].
    { change (2 ^ 53) with (2 ^ 52 * 2) in Hneq'.
      assert (q' = 2 ^ 52) by (destruct (Z.lt_trichotomy q' (2 ^ 52)) as [?|[?|?]]; nia).
      split; [assumption | nia]. }
    unfold nearest. destruct (Z.ltb_spec 0 (2 * h)); [|lia].
    rewrite E. subst k. rewrite Hk53. change (2 ^ 53) with (2 ^ 52 * 2). lia.
  - assert (HL : Z.log2 (roundN n) = 52 + e).
    { apply Z.log2_unique; [lia|]. rewrite E, <- Hp.
      replace (Z.succ (52 + e)) with (53 + e) by lia.
      rewrite !Z.pow_add_r by lia.
      assert (0 < 2 ^ e) by lia. nia. }
    assert (He'e : e' = e) by lia.
    assert (h' = h) by (rewrite He'e in Hp'; lia). subst h'.
    assert (Hq'k : q' = k) by (destruct (Z.lt_trichotomy q' k) as [?|[?|?]]; nia).
    assert (r' = 0) by (rewrite Hq'k in Hneq'; lia). subst q' r'.
    unfold nearest at 1. destruct (Z.ltb_spec 0 h); [|lia]. now rewrite E.
Qed.

Lemma roundN_exact n : n <= 2 ^ 53 -> roundN n = n.
Proof.
  intro H. destruct (Z.eq_dec n (2 ^ 53)) as [->|Hne].
  - reflexivity.
  - apply roundN_small. lia.
Qed.

Lemma round64_exact z : Z.abs z <= 2 ^ 53 -> round64 z = z.
Proof.
  intro H. unfold round64. rewrite roundN_exact by exact H.
  rewrite Z.mul_comm. apply Z.abs_sgn.
Qed.

Lemma round64_0 : round64 0 = 0.
Proof. reflexivity. Qed.

Lemma round64_nonneg z : 0 <= z -> 0 <= round64 z.
Proof.
  intro H. unfold round64.
  pose proof (roundN_nonneg (Z.abs z) (Z.abs_nonneg z)).
  destruct (Z.sgn_spec z) as [[? ->]|[[? ->]|[? ->]]]; lia.
Qed.

Lemma round64_neg z : z < 0 -> round64 z < 0.
Proof.
  intro H. unfold round64. rewrite Z.sgn_neg by exact H.
  pose proof (roundN_pos (Z.abs z) ltac:(lia)). lia.
Qed.

Lemma round64_of_nonneg z : 0 <= z -> round64 z = roundN z.
Proof.
  intro H. unfold round64. rewrite Z.abs_eq by exact H.
  destruct (Z.eq_dec z 0) as [->|Hne]; [reflexivity|].
  rewrite Z.sgn_pos by lia. lia.
Qed.

Lemma round64_of_neg z : z < 0 -> round64 z = - roundN (- z).
Proof.
  intro H. unfold round64. rewrite Z.sgn_neg, Z.abs_neq by lia. lia.
Qed.

Lemma round64_mono a b : a <= b -> round64 a <= round64 b.
Proof.
  intro H. destruct (Z.lt_ge_cases a 0) as [Ha|Ha].
  - destruct (Z.lt_ge_cases b 0) as [Hb|Hb].
    + rewrite !round64_of_neg by assumption.
      pose proof (roundN_mono (- b) (- a) ltac:(lia) ltac:(lia)). lia.
    + pose proof (round64_neg a Ha). pose proof (round64_nonneg b Hb). lia.
  - rewrite !round64_of_nonneg by lia. now apply roundN_mono.
Qed.

Lemma round64_idem z : round64 (round64 z) = round64 z.
Proof.
  destruct (Z.lt_ge_cases z 0) as [Hz|Hz].
  - pose proof (round64_neg z Hz) as Hn.
    rewrite (round64_of_neg _ Hn). rewrite (round64_of_neg z Hz).
    rewrite Z.opp_involutive. now rewrite roundN_idem by lia.
  - pose proof (round64_nonneg z Hz) as Hn.
    rewrite (round64_of_nonneg _ Hn). rewrite (round64_of_nonneg z Hz).
    now apply roundN_idem.
Qed.

Lemma isDouble_round64 z : isDouble (round64 z) = true.
Proof. unfold isDouble. rewrite round64_idem. apply Z.eqb_refl. Qed.

Lemma isDouble_eq z : isDouble z = true -> round64 z = z.
Proof. unfold isDouble. apply Z.eqb_eq. Qed.

(** Adding zero to a number changes nothing. *)
Lemma fadd_0_r x : isDouble x = true -> fadd x 0 = x.
Proof. intro H. unfold fadd. rewrite Z.add_0_r. now apply isDouble_eq. Qed.

Lemma fmul_0_l x : fmul 0 x = 0.
Proof. reflexivity. Qed.


Lemma fsub_neg x y : x < y -> fsub x y < 0.
Proof. intro H. apply round64_neg. lia. Qed.

(** Taking away what is not negative does not raise a number. *)
Lemma fsub_le x y : isDouble x = true -> 0 <= y -> fsub x y <= x.
Proof.
  intros Hx Hy. rewrite <- (isDouble_eq x Hx) at 2.
  apply round64_mono. lia.
Qed.

Lemma fsub_exact x y : Z.abs (x - y) <= 2 ^ 53 -> fsub x y = x - y.
Proof. apply round64_exact. Qed.

Lemma fadd_exact x y : Z.abs (x + y) <= 2 ^ 53 -> fadd x y = x + y.
Proof. apply round64_exact. Qed.


Lemma fadd_nonneg x y : 0 <= x -> 0 <= y -> 0 <= fadd x y.
Proof. intros. apply round64_nonneg. lia. Qed.

Lemma fmul_nonneg x y : 0 <= x -> 0 <= y -> 0 <= fmul x y.
Proof. intros. apply round64_nonneg. now apply Z.mul_nonneg_nonneg. Qed.

(** ** Running the array methods *)

Lemma bind_run {A B : Type} (m : M A) (k : A -> M B) (w w' : world) (a : A) :
  m w = (Return a, w') -> bind m k w = k a w'.
Proof. intro H. unfold bind. rewrite H. reflexivity. Qed.

Lemma bind_throw {A B : Type} (m : M A) (k : A -> M B) (w w' : world) (e : error) :
  m w = (Throw e, w') -> bind m k w = (Throw e, w').
Proof. intro H. unfold bind. rewrite H. reflexivity. Qed.

Section Readers.

Context {A : Type}.

Lemma reduce_reads (q : A -> M Z) (v : world -> A -> Z) :
  (forall x, reads (q x) (fun w => v w x)) ->
  forall xs acc w,
    reduce (fun sum x => t <- q x ;; ret (fadd sum t)) acc xs w
    = (Return (fold_left fadd (map (v w) xs) acc), w).
Proof.
  intros Hq xs. induction xs as [|x xs IH]; intros acc w; simpl.
  - reflexivity.
  - rewrite (bind_run _ _ w w (fadd acc (v w x))).
    + apply IH.
    + rewrite (bind_run _ _ w w (v w x)); [reflexivity | apply Hq].
Qed.

Lemma filter_reads (keep : A -> M bool) (k : world -> A -> bool) :
  (forall x, reads (keep x) (fun w => k w x)) ->
  forall xs w, filter keep xs w = (Return (List.filter (k w) xs), w).
Proof.
  intros Hk xs. induction xs as [|x xs IH]; intro w; simpl.
  - reflexivity.
  - rewrite (bind_run _ _ w w (k w x)) by apply Hk.
    rewrite (bind_run _ _ w w (List.filter (k w) xs)) by apply IH.
    unfold ret. now destruct (k w x).
Qed.

Lemma forEach_app (body : A -> M unit) (xs ys : list A) (w : world) :
  forEach body (xs ++ ys) w =
  match forEach body xs w with
  | (Return _, w') => forEach body ys w'
  | (Throw e, w') => (Throw e, w')
  end.
Proof.
  revert w. induction xs as [|x xs IH]; intro w; simpl.
  - reflexivity.
  - unfold bind. destruct (body x w) as [[[]|e] w1].
    + apply IH.
    + reflexivity.
Qed.

End Readers.

(** ** The queries are readers *)

Lemma isExpired_reads r : reads (Product.isExpired r) (fun w => expired w r).
Proof.
  intro w. unfold Product.isExpired, expired, bind, readProduct, newDate, ret.
  now destruct (p_class (products w r)).
Qed.

Lemma isShippable_reads r : reads (Product.isShippable r) (fun w => shippable w r).
Proof.
  intro w. unfold Product.isShippable, shippable, bind, readProduct, ret.
  now destruct (p_class (products w r)).
Qed.

Lemma getWeight_reads r : reads (Product.getWeight r) (fun w => weight w r).
Proof.
  intro w. unfold Product.getWeight, weight, bind, readProduct, ret.
  now destruct (p_class (products w r)).
Qed.

Lemma getTotalPrice_reads item :
  reads (CartItem.getTotalPrice item) (fun w => itemTotal w item).
Proof. intro w. reflexivity. Qed.

Lemma getProductName_reads item :
  reads (CartItem.getProductName item) (fun w => p_name (products w (i_product item))).
Proof. intro w. reflexivity. Qed.

Lemma itemGetWeight_reads item :
  reads (CartItem.getWeight item) (fun w => itemWeight w item).
Proof.
  intro w. unfold CartItem.getWeight.
  rewrite (bind_run _ _ w w (weight w (i_product item))) by apply getWeight_reads.
  reflexivity.
Qed.

Lemma getSubtotal_reads c :
  reads (Cart.getSubtotal c) (fun w => subtotalOf w (items c)).
Proof.
  intro w. unfold Cart.getSubtotal.
  rewrite (reduce_reads _ itemTotal) by (intro; apply getTotalPrice_reads).
  reflexivity.
Qed.

Lemma getShippableItems_reads c :
  reads (Cart.getShippableItems c) (fun w => shippableOf w (items c)).
Proof.
  intro w. unfold Cart.getShippableItems, CartItem.isShippable.
  rewrite (filter_reads _ (fun w item => shippable w (i_product item)))
    by (intro; apply isShippable_reads).
  reflexivity.
Qed.

Lemma getTotalWeight_reads c :
  reads (Cart.getTotalWeight c) (fun w => shippableWeightOf w (items c)).
Proof.
  intro w. unfold Cart.getTotalWeight.
  rewrite (bind_run _ _ w w (shippableOf w (items c))) by apply getShippableItems_reads.
  rewrite (reduce_reads _ itemWeight) by (intro; apply itemGetWeight_reads).
  reflexivity.
Qed.

(** ** Sums and what is left of the stock *)



Lemma fold_fadd_double l : forall acc,
  isDouble acc = true -> isDouble (fold_left fadd l acc) = true.
Proof.
  induction l as [|z l IH]; intros acc H; simpl; [exact H|].
  apply IH. apply isDouble_round64.
Qed.

Lemma sumOf_double l : isDouble (sumOf l) = true.
Proof. now apply fold_fadd_double. Qed.

Lemma fold_fadd_nonneg l : forall acc,
  0 <= acc -> (forall z, In z l -> 0 <= z) -> 0 <= fold_left fadd l acc.
Proof.
  induction l as [|z l IH]; intros acc Ha H; simpl; [exact Ha|].
  apply IH.
  - apply fadd_nonneg; [exact Ha | apply H; now left].
  - intros y Hy. apply H. now right.
Qed.






Lemma remaining_nil w r : remaining w [] r = stock w r.
Proof. reflexivity. Qed.

Lemma remaining_snoc w l item r :
  remaining w (l ++ [item]) r =
  if Nat.eqb (i_product item) r
  then fsub (remaining w l r) (i_quantity item)
  else remaining w l r.
Proof. unfold remaining. now rewrite fold_left_app. Qed.

Lemma remaining_absent w l r :
  (forall item, In item l -> i_product item <> r) -> remaining w l r = stock w r.
Proof.
  induction l as [|item l IH] using rev_ind; intro H; [reflexivity|].
  rewrite remaining_snoc, IH by (intros i Hi; apply H; apply in_or_app; now left).
  destruct (Nat.eqb_spec (i_product item) r) as [E|_]; [|reflexivity].
  exfalso. apply (H item); [apply in_or_app; right; now left | exact E].
Qed.

(** What is left is a binary64 number when the stock is. *)
Lemma remaining_double w l r :
  isDouble (stock w r) = true -> isDouble (remaining w l r) = true.
Proof.
  intro H. induction l as [|item l IH] using rev_ind; [exact H|].
  rewrite remaining_snoc. destruct (Nat.eqb (i_product item) r); [|exact IH].
  apply isDouble_round64.
Qed.


Lemma stockReducedBy_refl w : stockReducedBy [] w w.
Proof.
  repeat split. intro r. rewrite remaining_nil. unfold stock.
  now destruct (products w r).
Qed.

Section Frame.

Variables (served : list cartItem) (w w' : world).
Hypothesis Hp : reducedProducts served w w'.

Lemma reduced_stock r : stock w' r = remaining w served r.
Proof. unfold stock at 1. now rewrite Hp. Qed.

Lemma reduced_name r : p_name (products w' r) = p_name (products w r).
Proof. now rewrite Hp. Qed.

Lemma reduced_expired r : today w' = today w -> expired w' r = expired w r.
Proof. intro Ht. unfold expired. now rewrite Hp, Ht. Qed.

Lemma reduced_shippable r : shippable w' r = shippable w r.
Proof. unfold shippable. now rewrite Hp. Qed.

Lemma reduced_itemTotal item : itemTotal w' item = itemTotal w item.
Proof. unfold itemTotal. now rewrite Hp. Qed.

Lemma reduced_itemWeight item : itemWeight w' item = itemWeight w item.
Proof. unfold itemWeight, weight. now rewrite Hp. Qed.

Lemma reduced_subtotalOf l : subtotalOf w' l = subtotalOf w l.
Proof.
  unfold subtotalOf. f_equal. apply map_ext. exact reduced_itemTotal.
Qed.

Lemma reduced_shippableOf l : shippableOf w' l = shippableOf w l.
Proof.
  unfold shippableOf. apply filter_ext. intro item. apply reduced_shippable.
Qed.

Lemma reduced_shippableWeightOf l : shippableWeightOf w' l = shippableWeightOf w l.
Proof.
  unfold shippableWeightOf. rewrite reduced_shippableOf. f_equal.
  apply map_ext. exact reduced_itemWeight.
Qed.

Lemma reduced_totalOf l : totalOf w' l = totalOf w l.
Proof.
  unfold totalOf, shippingFeeOf.
  now rewrite reduced_subtotalOf, reduced_shippableWeightOf.
Qed.

Lemma reduced_checkoutLines l balance :
  checkoutLines w' l balance = checkoutLines w l balance.
Proof.
  unfold checkoutLines, shipmentLines, receiptLines.
  rewrite reduced_shippableOf, reduced_subtotalOf, reduced_totalOf.
  unfold shippingFeeOf. rewrite reduced_shippableWeightOf.
  rewrite (map_ext (shipmentLine w') (shipmentLine w)),
          (map_ext (itemWeight w') (itemWeight w)),
          (map_ext (receiptLine w') (receiptLine w)); try reflexivity.
  - intro i. unfold receiptLine. now rewrite reduced_name, reduced_itemTotal.
  - exact reduced_itemWeight.
  - intro i. unfold shipmentLine. now rewrite reduced_name, reduced_itemWeight.
Qed.

End Frame.

(** ** One turn of the stock loop *)

Section StockStep.

Variables (served : list cartItem) (w w1 : world) (item : cartItem).
Hypothesis H : stockReducedBy served w w1.

Lemma stockStep_expired :
  expired w (i_product item) = true ->
  stockStep item w1
  = (Throw (ExpiredProduct (p_name (products w (i_product item)))), w1).
Proof.
  intro He. unfold stockStep, CartItem.isExpired.
  rewrite (bind_run _ _ w1 w1 true).
  - unfold CartItem.getProductName, bind, readProduct, ret, throw.
    now rewrite (reduced_name served w w1 (proj1 H)).
  - rewrite isExpired_reads, (reduced_expired served w w1 (proj1 H)) by apply H. now rewrite He.
Qed.

Lemma stockStep_outOfStock :
  expired w (i_product item) = false ->
  remaining w served (i_product item) < i_quantity item ->
  stockStep item w1
  = (Throw (OutOfStock (p_name (products w (i_product item)))), w1).
Proof.
  intros He Hq. unfold stockStep, CartItem.isExpired.
  rewrite (bind_run _ _ w1 w1 false)
    by (rewrite isExpired_reads, (reduced_expired served w w1 (proj1 H)) by apply H; now rewrite He).
  unfold Product.reduceQuantity, bind, readProduct, throw.
  fold (stock w1 (i_product item)).
  rewrite (reduced_stock served w w1 (proj1 H)).
  destruct (Z.ltb_spec (remaining w served (i_product item))
                       (i_quantity item)) as [_|Hge]; [|lia].
  now rewrite (reduced_name served w w1 (proj1 H)).
Qed.

Lemma stockStep_served :
  expired w (i_product item) = false ->
  i_quantity item <= remaining w served (i_product item) ->
  fst (stockStep item w1) = Return tt
  /\ stockReducedBy (served ++ [item]) w (snd (stockStep item w1)).
Proof.
  intros He Hq. unfold stockStep, CartItem.isExpired.
  rewrite (bind_run _ _ w1 w1 false)
    by (rewrite isExpired_reads, (reduced_expired served w w1 (proj1 H)) by apply H; now rewrite He).
  unfold Product.reduceQuantity, bind, readProduct, writeProduct.
  fold (stock w1 (i_product item)).
  rewrite (reduced_stock served w w1 (proj1 H)).
  destruct (Z.ltb_spec (remaining w served (i_product item))
                       (i_quantity item)) as [Hlt|_]; [lia|].
  simpl. split; [reflexivity|].
  destruct H as (Hp & Hc & Ht & Ho). unfold reducedProducts in Hp.
  repeat split; simpl; try assumption.
  intro r. unfold update. rewrite remaining_snoc, (Nat.eqb_sym (i_product item) r).
  cbn beta iota delta [products].
  destruct (Nat.eqb_spec r (i_product item)) as [->|_].
  - rewrite !Hp. reflexivity.
  - rewrite Hp. reflexivity.
Qed.

End StockStep.

(** ** The stock loop *)

Lemma stockLoop_served rest :
  forall served w w1,
    stockReducedBy served w w1 ->
    noneExpired w rest = true ->
    sufficientFrom w served rest = true ->
    fst (forEach stockStep rest w1) = Return tt
    /\ stockReducedBy (served ++ rest) w (snd (forEach stockStep rest w1)).
Proof.
  induction rest as [|item rest IH]; intros served w w1 H Hne Hs.
  - simpl. rewrite app_nil_r. now split.
  - simpl in Hne, Hs.
    apply andb_prop in Hne as [He Hne]. apply andb_prop in Hs as [Hq Hs].
    apply negb_true_iff in He. apply Z.leb_le in Hq.
    destruct (stockStep_served served w w1 item H He Hq) as [Hr Hw].
    simpl. unfold bind.
    destruct (stockStep item w1) as [[[]|e] w2]; simpl in Hr, Hw; [|discriminate].
    replace (served ++ item :: rest) with ((served ++ [item]) ++ rest)
      by now rewrite <- app_assoc.
    now apply IH.
Qed.

(** The loop stops at the first item that is expired or asks for more
    than is left; the items before it have been served. *)
Lemma stockLoop_stops pre item post w e :
  noneExpired w pre = true ->
  sufficientStock w pre = true ->
  (forall w1, stockReducedBy pre w w1 -> stockStep item w1 = (Throw e, w1)) ->
  fst (forEach stockStep (pre ++ item :: post) w) = Throw e
  /\ stockReducedBy pre w (snd (forEach stockStep (pre ++ item :: post) w)).
Proof.
  intros Hne Hs Hstep.
  destruct (stockLoop_served pre [] w w (stockReducedBy_refl w) Hne Hs) as [Hr Hw].
  rewrite forEach_app.
  destruct (forEach stockStep pre w) as [[[]|e'] w1]; simpl in Hr, Hw; [|discriminate].
  simpl. unfold bind. rewrite (Hstep w1 Hw). now split.
Qed.

(** ** Payment and the reports *)

Lemma pay_refused c amount w :
  c_balance (customers w c) < amount ->
  Customer.pay c amount w
  = (Throw (InsufficientBalance amount (c_balance (customers w c))), w).
Proof.
  intro Hlt. unfold Customer.pay, bind, readCustomer, throw.
  now destruct (Z.ltb_spec (c_balance (customers w c)) amount); [|lia].
Qed.

Lemma pay_accepted c amount w :
  amount <= c_balance (customers w c) ->
  Customer.pay c amount w
  = (Return tt,
     mkWorld (products w)
             (update (customers w) c
                     (mkCustomer (c_name (customers w c))
                                 (fsub (c_balance (customers w c)) amount)))
             (today w) (console w)).
Proof.
  intro Hle. unfold Customer.pay, bind, readCustomer, writeCustomer.
  now destruct (Z.ltb_spec (c_balance (customers w c)) amount); [lia|].
Qed.

Lemma forEach_logs (step : cartItem -> M unit) (f : world -> cartItem -> line) :
  (forall item w, step item w = (Return tt, withConsole w (console w ++ [f w item]))) ->
  (forall item w out, f (withConsole w out) item = f w item) ->
  forall l w,
    forEach step l w = (Return tt, withConsole w (console w ++ map (f w) l)).
Proof.
  intros Hstep Hf l. induction l as [|item l IH]; intro w; simpl.
  - rewrite app_nil_r. now destruct w.
  - rewrite (bind_run _ _ _ _ tt (Hstep item w)), IH.
    unfold withConsole. simpl. rewrite <- app_assoc. simpl.
    do 4 f_equal. apply map_ext. intro i. apply (Hf i w).
Qed.

Lemma shipItems_run l w :
  forEach (fun item =>
             name <- CartItem.getProductName item ;;
             g <- CartItem.getWeight item ;;
             log (ShipmentItem (i_quantity item) name g)) l w
  = (Return tt, withConsole w (console w ++ map (shipmentLine w) l)).
Proof.
  apply forEach_logs.
  - intros item w0. unfold bind.
    now rewrite getProductName_reads, itemGetWeight_reads.
  - reflexivity.
Qed.

Lemma ship_run l w :
  ShippingService.ship l w
  = (Return tt, withConsole w (console w ++ shipmentLines w l)).
Proof.
  unfold ShippingService.ship.
  rewrite (bind_run _ _ w (withConsole w (console w ++ [ShipmentNotice])) tt)
    by reflexivity.
  rewrite (bind_run _ _ _ _ tt (shipItems_run l _)).
  rewrite (bind_run _ _ _ _ _ (reduce_reads _ itemWeight itemGetWeight_reads l 0 _)).
  unfold log, withConsole, shipmentLines. simpl.
  now rewrite <- !app_assoc.
Qed.

Lemma receipt_run l w :
  forEach receiptStep l w
  = (Return tt, withConsole w (console w ++ map (receiptLine w) l)).
Proof.
  apply forEach_logs; reflexivity.
Qed.

Lemma report_run c ct subtotal fee total w :
  report c ct subtotal fee total w
  = (Return tt,
     withConsole w
       (console w
        ++ (if (0 <? length (shippableOf w (items ct)))%nat
            then shipmentLines w (shippableOf w (items ct)) else [])
        ++ receiptLines w (items ct) subtotal fee total (c_balance (customers w c)))).
Proof.
  unfold report.
  rewrite (bind_run _ _ _ _ _ (getShippableItems_reads ct w)).
  set (sh := shippableOf w (items ct)).
  assert (Hship :
    (if (0 <? length sh)%nat then ShippingService.ship sh else ret tt) w
    = (Return tt,
       withConsole w (console w ++ (if (0 <? length sh)%nat
                                    then shipmentLines w sh else [])))).
  { destruct (0 <? length sh)%nat.
    - apply ship_run.
    - rewrite app_nil_r. now destruct w. }
  rewrite (bind_run _ _ _ _ _ Hship).
  set (w1 := withConsole w _).
  rewrite (bind_run _ _ w1 (withConsole w1 (console w1 ++ [CheckoutReceipt])) tt)
    by reflexivity.
  rewrite (bind_run _ _ _ _ (items ct) eq_refl).
  rewrite (bind_run _ _ _ _ _ (receipt_run (items ct) _)).
  unfold bind, log, Customer.getBalance, readCustomer, ret, receiptLines, w1, withConsole.
  simpl. repeat (rewrite <- !app_assoc; simpl). reflexivity.
Qed.

(** ** Settling the order *)

Section Settle.

Variables (served : list cartItem) (w w1 : world) (c : CRef) (ct : cart).
Hypothesis H : stockReducedBy served w w1.

Let balance := c_balance (customers w c).
Let total := totalOf w (items ct).

Lemma settle_pays :
  settle c ct w1
  = bind (Customer.pay c total)
         (fun _ => report c ct (subtotalOf w (items ct))
                          (shippingFeeOf w (items ct)) total) w1.
Proof.
  unfold settle.
  rewrite (bind_run _ _ _ _ _ (getSubtotal_reads ct w1)).
  rewrite (bind_run _ _ _ _ _ (getTotalWeight_reads ct w1)).
  cbv zeta. fold (shippingFeeOf w1 (items ct)).
  unfold total, totalOf, shippingFeeOf.
  now rewrite (reduced_subtotalOf served w w1 (proj1 H)),
              (reduced_shippableWeightOf served w w1 (proj1 H)).
Qed.

Lemma settle_refused :
  balance < total ->
  settle c ct w1 = (Throw (InsufficientBalance total balance), w1).
Proof.
  intro Hlt. rewrite settle_pays. destruct H as (_ & Hc & _).
  apply bind_throw. unfold balance. rewrite <- Hc.
  apply pay_refused. rewrite Hc. exact Hlt.
Qed.

Lemma settle_paid :
  total <= balance ->
  settle c ct w1
  = (Return tt,
     mkWorld (products w1)
             (update (customers w) c
                     (mkCustomer (c_name (customers w c)) (fsub balance total)))
             (today w)
             (console w ++ checkoutLines w (items ct) (fsub balance total))).
Proof.
  intro Hle. rewrite settle_pays. destruct H as (Hp & Hc & Ht & Ho).
  rewrite (bind_run _ _ _ _ _ (pay_accepted c total w1 ltac:(rewrite Hc; exact Hle))).
  rewrite report_run. unfold withConsole. cbn [products customers today console].
  rewrite Hc, Ht, Ho.
  assert (Hb : forall x, c_balance (update (customers w) c x c) = c_balance x)
    by (intro x; unfold update; now rewrite Nat.eqb_refl).
  rewrite Hb. cbn [c_balance]. fold balance.
  set (w2 := mkWorld (products w1) _ _ (console w)).
  assert (Hp2 : reducedProducts served w w2) by exact Hp.
  rewrite <- (reduced_checkoutLines served w w2 Hp2). unfold checkoutLines.
  rewrite (reduced_totalOf served w w2 Hp2), (reduced_subtotalOf served w w2 Hp2).
  unfold shippingFeeOf.
  now rewrite (reduced_shippableWeightOf served w w2 Hp2).
Qed.

End Settle.

(** ** Checkout, phase by phase *)

Lemma checkout_nonempty c ct w :
  items ct <> [] ->
  checkout c ct w =
  match forEach stockStep (items ct) w with
  | (Return _, w1) => settle c ct w1
  | (Throw e, w1) => (Throw e, w1)
  end.
Proof.
  intro Hne. rewrite checkout_phases. unfold Cart.isEmpty, Cart.getItems.
  destruct (items ct) as [|item l] eqn:E; [contradiction|].
  reflexivity.
Qed.

Lemma sufficientFrom_app w b : forall a c0,
  sufficientFrom w a (b ++ c0) = sufficientFrom w a b && sufficientFrom w (a ++ b) c0.
Proof.
  induction b as [|item b IH]; intros a c0; simpl.
  - now rewrite app_nil_r.
  - rewrite IH, <- app_assoc, andb_assoc. reflexivity.
Qed.

Lemma noneExpired_app w a b :
  noneExpired w (a ++ b) = noneExpired w a && noneExpired w b.
Proof. apply forallb_app. Qed.

(** Whatever the outcome, the loop leaves the world with the stock
    reduced for a prefix of the items, each of them unexpired and
    served from sufficient stock. *)
Lemma stockLoop_prefix rest :
  forall pre w w1,
    stockReducedBy pre w w1 ->
    noneExpired w pre = true ->
    sufficientStock w pre = true ->
    exists served post,
      pre ++ rest = served ++ post
      /\ noneExpired w served = true
      /\ sufficientStock w served = true
      /\ stockReducedBy served w (snd (forEach stockStep rest w1))
      /\ (fst (forEach stockStep rest w1) = Return tt -> post = []).
Proof.
  induction rest as [|item rest IH]; intros pre w w1 H Hne Hs.
  - exists pre, []. simpl. repeat split; try assumption; apply H.
  - simpl. unfold bind.
    destruct (expired w (i_product item)) eqn:He.
    + rewrite (stockStep_expired pre w w1 item H He).
      exists pre, (item :: rest). simpl. repeat split; try assumption; try apply H.
      discriminate.
    + destruct (Z.lt_ge_cases (remaining w pre (i_product item))
                              (i_quantity item)) as [Hlt|Hge].
      * rewrite (stockStep_outOfStock pre w w1 item H He Hlt).
        exists pre, (item :: rest). simpl. repeat split; try assumption; try apply H.
        discriminate.
      * destruct (stockStep_served pre w w1 item H He Hge) as [Hr Hw].
        destruct (stockStep item w1) as [[[]|e] w2]; simpl in Hr, Hw; [|discriminate].
        replace (pre ++ item :: rest) with ((pre ++ [item]) ++ rest)
          by now rewrite <- app_assoc.
        apply IH; [exact Hw | |].
        -- rewrite noneExpired_app, Hne. simpl. now rewrite He.
        -- unfold sufficientStock in *. rewrite sufficientFrom_app, Hs. simpl.
           rewrite andb_true_r. now apply Z.leb_le.
Qed.


(** The steps after the loop leave the products alone. *)
Lemma settle_products c ct w1 : products (snd (settle c ct w1)) = products w1.
Proof.
  rewrite (settle_pays [] w1 w1 c ct (stockReducedBy_refl w1)).
  set (total := totalOf w1 (items ct)).
  destruct (Z.lt_ge_cases (c_balance (customers w1 c)) total) as [Hlt|Hge].
  - now rewrite (bind_throw _ _ _ _ _ (pay_refused c total w1 Hlt)).
  - rewrite (bind_run _ _ _ _ _ (pay_accepted c total w1 Hge)).
    now rewrite report_run.
Qed.

(** A checkout leaves the stock reduced for a prefix of the cart. *)
Lemma checkout_prefix c ct w :
  exists served post,
    items ct = served ++ post
    /\ noneExpired w served = true
    /\ sufficientStock w served = true
    /\ reducedProducts served w (snd (checkout c ct w))
    /\ (fst (checkout c ct w) = Return tt -> post = [] /\ items ct <> []).
Proof.
  destruct (items ct) as [|item l] eqn:E.
  - exists [], []. rewrite checkout_phases. unfold Cart.isEmpty. rewrite E. simpl.
    repeat split; try apply stockReducedBy_refl; discriminate.
  - assert (Hne : items ct <> []) by (rewrite E; discriminate).
    rewrite (checkout_nonempty c ct w Hne), E.
    destruct (stockLoop_prefix (item :: l) [] w w (stockReducedBy_refl w)
                               eq_refl eq_refl)
      as (served & post & Hsp & Hx & Hs & Hw & Hpost).
    exists served, post. simpl app in Hsp.
    destruct (forEach stockStep (item :: l) w) as [[[]|e] w1]; simpl in Hw, Hpost.
    + repeat split; try assumption.
      * intro r. rewrite settle_products. apply Hw.
      * now apply Hpost.
      * discriminate.
    + repeat split; try assumption; try apply Hw; discriminate.
Qed.

(** * The properties *)

(** The demonstration, run before the expiry date: subtotal 400,
    shipping 30, amount 430, and 570 left to the customer. *)
Example demo_run :
  checkout 0%nat demoCart (demoWorld july2025)
  = (Return tt,
     mkWorld (products (snd (checkout 0%nat demoCart (demoWorld july2025))))
             (customers (snd (checkout 0%nat demoCart (demoWorld july2025))))
             july2025
             [ShipmentNotice;
              ShipmentItem 2 "Cheese" 400;
              ShipmentItem 1 "Biscuits" 700;
              PackageWeight 1100;
              CheckoutReceipt;
              ReceiptItem 2 "Cheese" 200;
              ReceiptItem 1 "Biscuits" 150;
              ReceiptItem 1 "Scratch Card" 50;
              Separator;
              SubtotalLine 400;
              ShippingLine 30;
              AmountLine 430;
              BalanceLine 570])
  /\ c_balance (customers (snd (checkout 0%nat demoCart (demoWorld july2025))) 0%nat) = 570
  /\ map (stock (snd (checkout 0%nat demoCart (demoWorld july2025)))) [0; 1; 2; 3]%nat
     = [3; 1; 10; 9].
Proof. vm_compute. repeat split. Qed.

(** Run on the day of writing, after the expiry date, it stops at the
    cheese. *)
Example demo_run_expired :
  checkout 0%nat demoCart (demoWorld november2026)
  = (Throw (ExpiredProduct "Cheese"), demoWorld november2026).
Proof. reflexivity. Qed.

(** Gold at 2^53 and a pin at 1: the subtotal is 2^53, the unit of the
    pin being lost in the addition, and the customer who owns 2^53 pays
    it. *)
Example gold_run :
  Cart.getSubtotal goldCart goldWorld = (Return (2 ^ 53), goldWorld)
  /\ fst (checkout 0%nat goldCart goldWorld) = Return tt
  /\ c_balance (customers (snd (checkout 0%nat goldCart goldWorld)) 0%nat) = 0.
Proof. vm_compute. repeat split. Qed.

(** With 2^53 + 2 the same customer is left 2. *)
Example gold_run_change :
  let w := mkWorld (products goldWorld) (fun _ => mkCustomer "Ali" (2 ^ 53 + 2))
                   july2025 [] in
  fst (checkout 0%nat goldCart w) = Return tt
  /\ c_balance (customers (snd (checkout 0%nat goldCart w)) 0%nat) = 2.
Proof. vm_compute. repeat split. Qed.

(** Stock beyond 2^53.  One unit taken from 2^53 + 4 leaves 2^53 + 4, so
    that a second item is served all of it; one unit taken from 2^53 + 2
    leaves 2^53, a second one 2^53 - 1, and two taken at once 2^53. *)
Example bulk_run :
  let ct := mkCart [mkCartItem 0%nat 1; mkCartItem 0%nat (2 ^ 53 + 4)] in
  let twice := Product.reduceQuantity 0%nat 1 ;; Product.reduceQuantity 0%nat 1 in
  fst (checkout 0%nat ct (bulkWorld (2 ^ 53 + 4))) = Return tt
  /\ stock (snd (checkout 0%nat ct (bulkWorld (2 ^ 53 + 4)))) 0%nat = 0
  /\ stock (snd (Product.reduceQuantity 0%nat 1 (bulkWorld (2 ^ 53 + 2)))) 0%nat = 2 ^ 53
  /\ stock (snd (twice (bulkWorld (2 ^ 53 + 2)))) 0%nat = 2 ^ 53 - 1
  /\ stock (snd (Product.reduceQuantity 0%nat 2 (bulkWorld (2 ^ 53 + 2)))) 0%nat = 2 ^ 53.
Proof. vm_compute. repeat split. Qed.

(** C4. Checkout of an empty cart, for any customer and in any world,
    throws EmptyCart and leaves the world as it was: no stock changes,
    no balance changes, nothing is written to the console. *)
Theorem checkout_empty_cart (customer : CRef) (w : world) :
  checkout customer (mkCart []) w = (Throw EmptyCart, w).
Proof.
  rewrite checkout_phases.
  rewrite (bind_run _ _ w w true); [reflexivity|].
  unfold Cart.isEmpty. reflexivity.
Qed.

Lemma reduceQuantity_refused (this : PRef) (q : Z) (w : world) :
  stock w this < q ->
  Product.reduceQuantity this q w
  = (Throw (OutOfStock (p_name (products w this))), w).
Proof.
  intro Hlt. unfold Product.reduceQuantity, bind, readProduct, throw.
  fold (stock w this).
  now destruct (Z.ltb_spec (stock w this) q); [|lia].
Qed.

Lemma reduceQuantity_accepted (this : PRef) (q : Z) (w : world) :
  q <= stock w this ->
  Product.reduceQuantity this q w
  = (Return tt,
     mkWorld (update (products w) this
                     (mkProduct (p_name (products w this)) (p_price (products w this))
                                (fsub (stock w this) q) (p_class (products w this))))
             (customers w) (today w) (console w)).
Proof.
  intro Hle. unfold Product.reduceQuantity, bind, readProduct, writeProduct.
  fold (stock w this).
  now destruct (Z.ltb_spec (stock w this) q); [lia|].
Qed.


(** C6. [add(product, quantity)] throws InsufficientStock exactly when
    the quantity exceeds the quantity on hand at the time of adding, and
    on success returns the cart with a new item appended, the stock
    being left as it was.  As stock is only taken at checkout, two adds
    of the same product can each succeed and the checkout of the
    resulting cart throw OutOfStock. *)
Theorem add_spec :
  (forall (this : cart) (product : PRef) (quantity : Z) (w : world),
      (stock w product < quantity
       /\ Cart.add this product quantity w
          = (Throw (InsufficientStock (p_name (products w product))), w))
      \/
      (quantity <= stock w product
       /\ Cart.add this product quantity w
          = (Return (mkCart (items this ++ [mkCartItem product quantity])), w)))
  /\
  (exists (w : world) (customer : CRef) (product : PRef) (q1 q2 : Z) (cart1 cart2 : cart),
      Cart.add Cart.new product q1 w = (Return cart1, w)
      /\ Cart.add cart1 product q2 w = (Return cart2, w)
      /\ fst (checkout customer cart2 w)
         = Throw (OutOfStock (p_name (products w product)))).
Proof.
  split.
  - intros this product quantity w.
    unfold Cart.add, bind, readProduct, throw, ret, stock.
    rewrite Z.gtb_ltb.
    destruct (Z.ltb_spec (p_quantity (products w product)) quantity) as [Hlt|Hge].
    + left. now split.
    + right. now split.
  - exists (demoWorld july2025), 0%nat, 2%nat, 6, 6,
           (mkCart [mkCartItem 2%nat 6]),
           (mkCart [mkCartItem 2%nat 6; mkCartItem 2%nat 6]).
    repeat split.
Qed.

(** ** Sums within 2^53 are exact *)











(** ** Outcomes of checkout *)

(** A cart that passes the expiry and stock steps reaches the payment
    with its stock taken. *)
Lemma checkout_served c ct w :
  items ct <> [] ->
  noneExpired w (items ct) = true ->
  sufficientStock w (items ct) = true ->
  exists w1,
    forEach stockStep (items ct) w = (Return tt, w1)
    /\ stockReducedBy (items ct) w w1
    /\ checkout c ct w = settle c ct w1.
Proof.
  intros Hne Hx Hs.
  destruct (stockLoop_served (items ct) [] w w (stockReducedBy_refl w) Hx Hs)
    as [Hr Hw].
  rewrite (checkout_nonempty c ct w Hne).
  destruct (forEach stockStep (items ct) w) as [[[]|e] w1]; simpl in Hr, Hw;
    [|discriminate].
  exists w1. split; [reflexivity|]. split; [exact Hw | reflexivity].
Qed.

Lemma checkout_stopped c ct w pre item post e :
  items ct = pre ++ item :: post ->
  noneExpired w pre = true ->
  sufficientStock w pre = true ->
  (forall w1, stockReducedBy pre w w1 -> stockStep item w1 = (Throw e, w1)) ->
  fst (checkout c ct w) = Throw e
  /\ stockReducedBy pre w (snd (checkout c ct w)).
Proof.
  intros Hi Hx Hs Hstep.
  assert (Hne : items ct <> []) by (rewrite Hi; now destruct pre).
  rewrite (checkout_nonempty c ct w Hne), Hi.
  destruct (stockLoop_stops pre item post w e Hx Hs Hstep) as [Hr Hw].
  destruct (forEach stockStep (pre ++ item :: post) w) as [[[]|e'] w1];
    simpl in Hr, Hw; [discriminate|].
  now split.
Qed.

Lemma checkout_paid c ct w :
  items ct <> [] ->
  noneExpired w (items ct) = true ->
  sufficientStock w (items ct) = true ->
  totalOf w (items ct) <= c_balance (customers w c) ->
  exists w1,
    stockReducedBy (items ct) w w1
    /\ checkout c ct w
       = (Return tt,
          mkWorld (products w1)
                  (update (customers w) c
                          (mkCustomer (c_name (customers w c))
                                      (fsub (c_balance (customers w c))
                                            (totalOf w (items ct)))))
                  (today w)
                  (console w
                   ++ checkoutLines w (items ct)
                        (fsub (c_balance (customers w c)) (totalOf w (items ct))))).
Proof.
  intros Hne Hx Hs Hb.
  destruct (checkout_served c ct w Hne Hx Hs) as (w1 & _ & Hw & ->).
  exists w1. split; [exact Hw|].
  now apply (settle_paid (items ct) w w1 c ct Hw).
Qed.


Lemma reducedProducts_absent served w w' r :
  reducedProducts served w w' ->
  (forall item, In item served -> i_product item <> r) ->
  products w' r = products w r.
Proof.
  intros Hp Ha. rewrite Hp, (remaining_absent w served r Ha). unfold stock.
  now destruct (products w r).
Qed.









(** ** The five outcomes *)

(** Either every item of a list is unexpired and served from sufficient
    stock, or there is a first one that is not. *)
Lemma stockLoop_cases w rest :
  forall pre,
    noneExpired w pre = true ->
    sufficientStock w pre = true ->
    (noneExpired w (pre ++ rest) = true /\ sufficientStock w (pre ++ rest) = true)
    \/ exists served item post,
        pre ++ rest = served ++ item :: post
        /\ noneExpired w served = true
        /\ sufficientStock w served = true
        /\ (expired w (i_product item) = true
            \/ (expired w (i_product item) = false
                /\ remaining w served (i_product item) < i_quantity item)).
Proof.
  induction rest as [|item rest IH]; intros pre Hx Hs.
  - left. rewrite app_nil_r. now split.
  - destruct (expired w (i_product item)) eqn:He.
    { right. exists pre, item, rest. repeat split; try assumption. now left. }
    destruct (Z.lt_ge_cases (remaining w pre (i_product item))
                            (i_quantity item)) as [Hlt|Hge].
    { right. exists pre, item, rest. repeat split; try assumption. right. now split. }
    replace (pre ++ item :: rest) with ((pre ++ [item]) ++ rest)
      by now rewrite <- app_assoc.
    apply IH.
    + rewrite noneExpired_app, Hx. simpl. now rewrite He.
    + unfold sufficientStock in *. rewrite sufficientFrom_app, Hs. simpl.
      rewrite andb_true_r. now apply Z.leb_le.
Qed.

(** The outcome of a checkout is one of five, each with its condition
    and its effect. *)
Lemma checkout_cases (customer : CRef) (ct : cart) (w : world) :
  (items ct = []
   /\ checkout customer ct w = (Throw EmptyCart, w))
  \/
  (exists pre item post,
      items ct = pre ++ item :: post
      /\ noneExpired w pre = true
      /\ sufficientStock w pre = true
      /\ expired w (i_product item) = true
      /\ fst (checkout customer ct w)
         = Throw (ExpiredProduct (p_name (products w (i_product item))))
      /\ stockReducedBy pre w (snd (checkout customer ct w)))
  \/
  (exists pre item post,
      items ct = pre ++ item :: post
      /\ noneExpired w pre = true
      /\ sufficientStock w pre = true
      /\ expired w (i_product item) = false
      /\ remaining w pre (i_product item) < i_quantity item
      /\ fst (checkout customer ct w)
         = Throw (OutOfStock (p_name (products w (i_product item))))
      /\ stockReducedBy pre w (snd (checkout customer ct w)))
  \/
  (items ct <> []
   /\ noneExpired w (items ct) = true
   /\ sufficientStock w (items ct) = true
   /\ c_balance (customers w customer) < totalOf w (items ct)
   /\ fst (checkout customer ct w)
      = Throw (InsufficientBalance (totalOf w (items ct))
                                   (c_balance (customers w customer)))
   /\ stockReducedBy (items ct) w (snd (checkout customer ct w)))
  \/
  (items ct <> []
   /\ noneExpired w (items ct) = true
   /\ sufficientStock w (items ct) = true
   /\ totalOf w (items ct) <= c_balance (customers w customer)
   /\ fst (checkout customer ct w) = Return tt
   /\ reducedProducts (items ct) w (snd (checkout customer ct w))
   /\ customers (snd (checkout customer ct w))
      = update (customers w) customer
               (mkCustomer (c_name (customers w customer))
                           (fsub (c_balance (customers w customer)) (totalOf w (items ct))))
   /\ today (snd (checkout customer ct w)) = today w
   /\ console (snd (checkout customer ct w))
      = console w
        ++ checkoutLines w (items ct)
             (fsub (c_balance (customers w customer)) (totalOf w (items ct)))).
Proof.
  destruct (items ct) as [|first others] eqn:E.
  { left. split; [reflexivity|]. rewrite checkout_phases.
    unfold Cart.isEmpty. now rewrite E. }
  right. rewrite <- E.
  assert (Hne : items ct <> []) by (rewrite E; discriminate).
  destruct (stockLoop_cases w (items ct) [] eq_refl eq_refl)
    as [[Hx Hs]|(pre & item & post & Hi & Hx & Hs & [He|[He Hq]])];
    simpl app in *.
  - right. right.
    destruct (Z.lt_ge_cases (c_balance (customers w customer)) (totalOf w (items ct)))
      as [Hlt|Hge].
    + left. destruct (checkout_served customer ct w Hne Hx Hs) as (w1 & _ & Hw & ->).
      rewrite (settle_refused (items ct) w w1 customer ct Hw Hlt).
      now repeat split; try apply Hw.
    + right. destruct (checkout_paid customer ct w Hne Hx Hs Hge) as (w1 & Hw & ->).
      repeat split; try assumption. apply Hw.
  - left. exists pre, item, post.
    destruct (checkout_stopped customer ct w pre item post _ Hi Hx Hs
                (fun w1 H1 => stockStep_expired pre w w1 item H1 He)) as [Hr Hw].
    repeat split; try assumption; apply Hw.
  - right. left. exists pre, item, post.
    destruct (checkout_stopped customer ct w pre item post _ Hi Hx Hs
                (fun w1 H1 => stockStep_outOfStock pre w w1 item H1 He Hq)) as [Hr Hw].
    repeat split; try assumption; apply Hw.
Qed.

(** ** The stock invariant *)

Lemma update_same {A : Type} (f : nat -> A) r a : update f r a r = a.
Proof. unfold update. now rewrite Nat.eqb_refl. Qed.

Lemma update_other {A : Type} (f : nat -> A) r a r' : r' <> r -> update f r a r' = f r'.
Proof. intro H. unfold update. apply Nat.eqb_neq in H. now rewrite H. Qed.




Lemma checkout_stock_served c ct w :
  exists served post,
    items ct = served ++ post
    /\ forall r, stock (snd (checkout c ct w)) r = remaining w served r.
Proof.
  destruct (checkout_prefix c ct w) as (served & post & Hi & _ & _ & Hp & _).
  exists served, post. split; [exact Hi|].
  intro r. apply (reduced_stock served w _ Hp).
Qed.







(** ** Shipment report and shipping fee *)








(** * Further properties of the code *)

(** ** Payment *)



(** ** The outcomes of checkout *)



(** ** Stock within 2^53 *)









(** X5. Whatever its outcome, a checkout leaves alone every product
    that no item of the cart refers to. *)
Theorem checkout_frame (customer : CRef) (ct : cart) (w : world) (r : PRef) :
  (forall item, In item (items ct) -> i_product item <> r) ->
  products (snd (checkout customer ct w)) r = products w r.
Proof.
  intro Habsent.
  destruct (checkout_prefix customer ct w) as (served & post & Hi & _ & _ & Hp & _).
  apply (reducedProducts_absent served w _ r Hp).
  intros item Hin. apply Habsent. rewrite Hi. apply in_or_app. now left.
Qed.

(** The demonstration does not touch the TV. *)
Lemma checkout_frame_witness :
  products (snd (checkout 0%nat demoCart (demoWorld july2025))) 2%nat = tv.
Proof.
  apply (checkout_frame 0%nat demoCart (demoWorld july2025) 2%nat).
  intros item [<-|[<-|[<-|[]]]]; discriminate.
Defined.

(** ** When a checkout goes through *)




(** ** Shipping and weights *)


Lemma plain_weightless w item :
  shippable w (i_product item) = false -> itemWeight w item = 0.
Proof.
  unfold shippable, itemWeight, weight.
  now destruct (p_class (products w (i_product item))).
Qed.

Lemma fold_fadd_shippable w l :
  forall acc,
    isDouble acc = true ->
    fold_left fadd (map (itemWeight w) (shippableOf w l)) acc
    = fold_left fadd (map (itemWeight w) l) acc.
Proof.
  unfold shippableOf.
  induction l as [|item l IH]; intros acc Hacc; simpl; [reflexivity|].
  destruct (shippable w (i_product item)) eqn:E; simpl.
  - apply IH. apply isDouble_round64.
  - rewrite (plain_weightless w item E), (fadd_0_r acc Hacc). now apply IH.
Qed.

Lemma shippableWeightOf_all w l :
  shippableWeightOf w l = sumOf (map (itemWeight w) l).
Proof. unfold shippableWeightOf, sumOf. now apply fold_fadd_shippable. Qed.

(** X8. An item that is not shippable weighs nothing, its product being
    of the base class, whose weight is 0.  So the total weight of a cart
    is also the sum of the weights of all its items, and a shipment
    notice for the whole cart would state the package weight of the
    notice for its shippable items. *)
Theorem getTotalWeight_all_items (this : cart) (w : world) :
  (forall item,
      CartItem.isShippable item w = (Return false, w) ->
      CartItem.getWeight item w = (Return 0, w))
  /\ Cart.getTotalWeight this w
     = reduce (fun total item => g <- CartItem.getWeight item ;; ret (fadd total g))
              0 (items this) w
  /\ (forall shippableItems,
         Cart.getShippableItems this w = (Return shippableItems, w) ->
         last (console (snd (ShippingService.ship (items this) w))) Separator
         = last (console (snd (ShippingService.ship shippableItems w))) Separator).
Proof.
  split; [|split].
  - intros item Hs. rewrite itemGetWeight_reads.
    unfold CartItem.isShippable in Hs. rewrite isShippable_reads in Hs.
    injection Hs as Hs. now rewrite (plain_weightless w item Hs).
  - rewrite getTotalWeight_reads.
    rewrite (reduce_reads CartItem.getWeight itemWeight itemGetWeight_reads).
    now rewrite shippableWeightOf_all.
  - intros shippableItems Hsh. rewrite getShippableItems_reads in Hsh.
    injection Hsh as <-. rewrite !ship_run.
    unfold withConsole, shipmentLines. cbn [snd console].
    rewrite !app_comm_cons, !app_assoc, !last_last.
    fold (shippableWeightOf w (items this)).
    now rewrite shippableWeightOf_all.
Qed.

(** A scratch card weighs nothing in the cart of the demonstration. *)
Lemma getTotalWeight_all_items_witness :
  CartItem.getWeight (mkCartItem 3%nat 1) (demoWorld july2025)
  = (Return 0, demoWorld july2025)
  /\ last (console (snd (ShippingService.ship (items demoCart) (demoWorld july2025))))
          Separator
     = PackageWeight 1100.
Proof.
  destruct (getTotalWeight_all_items demoCart (demoWorld july2025))
    as (Hplain & _ & Hlast).
  split.
  - apply Hplain. reflexivity.
  - rewrite (Hlast [mkCartItem 0%nat 2; mkCartItem 1%nat 1] eq_refl). reflexivity.
Defined.

(** ** Adding to a cart *)



(** ** Carts without a repeated product *)

(** X10. The check made by [add] is enough when no product is added
    twice: if every item of the cart asks for no more than its product
    has, as [add] has checked, and no two items refer to the same
    product, the checkout never throws OutOfStock. *)
Theorem checkout_distinct_products (customer : CRef) (ct : cart) (w : world) :
  NoDup (map i_product (items ct)) ->
  (forall item, In item (items ct) -> i_quantity item <= stock w (i_product item)) ->
  forall name, fst (checkout customer ct w) <> Throw (OutOfStock name).
Proof.
  intros Hnd Hq name Hr.
  destruct (checkout_cases customer ct w)
    as [[_ E]|[(pre & item & post & _ & _ & _ & _ & E & _)
       |[(pre & item & post & Hi & _ & _ & _ & Hshort & _)
       |[(_ & _ & _ & _ & E & _)|(_ & _ & _ & _ & E & _)]]]];
    try (rewrite E in Hr; discriminate).
  assert (Hin : In item (items ct))
    by (rewrite Hi; apply in_or_app; right; now left).
  rewrite Hi, map_app in Hnd. simpl in Hnd. apply NoDup_remove_2 in Hnd.
  rewrite remaining_absent in Hshort.
  - specialize (Hq item Hin). lia.
  - intros earlier Hearlier E. apply Hnd. apply in_or_app. left.
    rewrite <- E. now apply in_map.
Qed.

(** The cart of the demonstration, built by three adds of three
    products. *)
Lemma checkout_distinct_products_witness :
  fst (checkout 0%nat demoCart (demoWorld july2025)) <> Throw (OutOfStock "Cheese").
Proof.
  apply (checkout_distinct_products 0%nat demoCart (demoWorld july2025)).
  - repeat constructor; simpl; intuition discriminate.
  - intros item [<-|[<-|[<-|[]]]]; discriminate.
Defined.

(** ** Expiry *)

Lemma expired_later w t r :
  today w <= t -> expired w r = true -> expired (atDate w t) r = true.
Proof.
  unfold expired, atDate. simpl.
  destruct (p_class (products w r)) as [|expiryDate g|g]; try discriminate.
  intros Ht He. apply Z.ltb_lt in He. apply Z.ltb_lt. lia.
Qed.

Lemma sufficientFrom_atDate w t rest :
  forall pre, sufficientFrom (atDate w t) pre rest = sufficientFrom w pre rest.
Proof.
  induction rest as [|item rest IH]; intro pre; simpl; [reflexivity|].
  now rewrite IH.
Qed.

Lemma noneExpired_cases w l :
  noneExpired w l = true
  \/ exists before item after,
      l = before ++ item :: after
      /\ noneExpired w before = true
      /\ expired w (i_product item) = true.
Proof.
  induction l as [|item l IH]; [now left|].
  destruct (expired w (i_product item)) eqn:He.
  - right. exists [], item, l. now repeat split.
  - destruct IH as [Hx|(before & it & after & -> & Hx & Hit)].
    + left. simpl. now rewrite He.
    + right. exists (item :: before), it, after. simpl. rewrite He. now repeat split.
Qed.

(** X11. Expiry does not pass: a checkout that throws ExpiredProduct
    throws ExpiredProduct again when it is run, in the same world, at
    any later instant. *)
Theorem checkout_expired_later
    (customer : CRef) (ct : cart) (w : world) (name : string) (later : Z) :
  fst (checkout customer ct w) = Throw (ExpiredProduct name) ->
  today w <= later ->
  exists name',
    fst (checkout customer ct (atDate w later)) = Throw (ExpiredProduct name').
Proof.
  intros Hr Ht.
  destruct (checkout_cases customer ct w)
    as [[_ E]|[(pre & item & post & Hi & _ & Hs & He & _)
       |[(pre & item & post & _ & _ & _ & _ & _ & E & _)
       |[(_ & _ & _ & _ & E & _)|(_ & _ & _ & _ & E & _)]]]];
    try (rewrite E in Hr; discriminate).
  set (w' := atDate w later).
  destruct (noneExpired_cases w' pre) as [Hx|(before & it & after & Hpre & Hx & Hit)].
  - exists (p_name (products w' (i_product item))).
    apply (checkout_stopped customer ct w' pre item post _ Hi Hx).
    + unfold sufficientStock, w'. now rewrite sufficientFrom_atDate.
    + intros w1 H1. apply (stockStep_expired pre w' w1 item H1).
      now apply expired_later.
  - exists (p_name (products w' (i_product it))).
    apply (checkout_stopped customer ct w' before it (after ++ item :: post) _).
    + rewrite Hi, Hpre, <- app_assoc. reflexivity.
    + exact Hx.
    + unfold sufficientStock, w' in *. rewrite sufficientFrom_atDate.
      rewrite Hpre, sufficientFrom_app in Hs. now apply andb_prop in Hs.
    + intros w1 H1. now apply (stockStep_expired before w' w1 it H1).
Qed.

(** One millisecond after the expiry date the cheese is named; in
    November 2026 an expired product is named still. *)
Lemma checkout_expired_later_witness :
  exists name',
    fst (checkout 0%nat demoCart (atDate (demoWorld 1754006400001) november2026))
    = Throw (ExpiredProduct name').
Proof.
  apply (checkout_expired_later 0%nat demoCart (demoWorld 1754006400001)
                                "Cheese" november2026).
  - reflexivity.
  - discriminate.
Defined.

(** X12. A product is expired only when it is perishable and its
    expiry date is strictly before the present instant.  So a checkout
    never throws ExpiredProduct when the present instant is not after
    the expiry date of any perishable product of the cart, the expiry
    instant itself included; in particular never for a cart of base and
    shippable products. *)
Theorem checkout_unexpired (customer : CRef) (ct : cart) (w : world) :
  (forall item expiryDate g,
      In item (items ct) ->
      p_class (products w (i_product item)) = PerishableProduct expiryDate g ->
      today w <= expiryDate) ->
  forall name, fst (checkout customer ct w) <> Throw (ExpiredProduct name).
Proof.
  intros Hfresh name Hr.
  destruct (checkout_cases customer ct w)
    as [[_ E]|[(pre & item & post & Hi & _ & _ & He & _)
       |[(pre & item & post & _ & _ & _ & _ & _ & E & _)
       |[(_ & _ & _ & _ & E & _)|(_ & _ & _ & _ & E & _)]]]];
    try (rewrite E in Hr; discriminate).
  assert (Hin : In item (items ct))
    by (rewrite Hi; apply in_or_app; right; now left).
  unfold expired in He.
  destruct (p_class (products w (i_product item))) as [|expiryDate g|g] eqn:Ec;
    try discriminate.
  apply Z.ltb_lt in He. specialize (Hfresh item expiryDate g Hin Ec). lia.
Qed.

(** The demonstration at the very instant of the expiry date. *)
Lemma checkout_unexpired_witness :
  fst (checkout 0%nat demoCart (demoWorld 1754006400000))
  <> Throw (ExpiredProduct "Cheese").
Proof.
  apply (checkout_unexpired 0%nat demoCart (demoWorld 1754006400000)).
  intros item expiryDate g [<-|[<-|[<-|[]]]] Ec; inversion Ec; discriminate.
Defined.

(** ** Reducing twice *)

(** X13. When the stock of a product is below 2^53 and neither [q1]
    nor [q2] is negative, reducing it by [q1] and then by [q2] goes
    through exactly when reducing it once by the sum of the two does,
    and then leaves the same products.  (Beyond 2^53 the two differ:
    two reductions by 1 take 2^53 + 2 to 2^53 - 1, one reduction by 2
    takes it to 2^53.) *)
Theorem reduceQuantity_twice (this : PRef) (q1 q2 : Z) (w : world) :
  0 <= q1 ->
  0 <= q2 ->
  stock w this < 2 ^ 53 ->
  (fst ((Product.reduceQuantity this q1 ;; Product.reduceQuantity this q2) w) = Return tt
   <-> fst (Product.reduceQuantity this (fadd q1 q2) w) = Return tt)
  /\ (fst (Product.reduceQuantity this (fadd q1 q2) w) = Return tt ->
      forall r,
        products (snd ((Product.reduceQuantity this q1 ;;
                        Product.reduceQuantity this q2) w)) r
        = products (snd (Product.reduceQuantity this (fadd q1 q2) w)) r).
Proof.
  intros H1 H2 Hs.
  assert (Es : forall p c t o,
             stock (mkWorld (update (products w) this p) c t o) this = p_quantity p)
    by (intros; unfold stock; cbn [products]; now rewrite update_same).
  destruct (Z.lt_ge_cases (stock w this) (q1 + q2)) as [Hlt|Hge].
  - assert (Hlt' : stock w this < fadd q1 q2).
    { assert (Hm : round64 (stock w this + 1) <= fadd q1 q2)
        by (apply round64_mono; lia).
      destruct (Z.lt_ge_cases (stock w this) 0) as [Hn|Hn].
      - pose proof (fadd_nonneg q1 q2 H1 H2). lia.
      - rewrite round64_exact in Hm by lia. lia. }
    rewrite (reduceQuantity_refused this (fadd q1 q2) w Hlt'). simpl.
    split; [|discriminate]. split; [|discriminate].
    destruct (Z.lt_ge_cases (stock w this) q1) as [Hlt1|Hge1].
    + now rewrite (bind_throw _ _ _ _ _ (reduceQuantity_refused this q1 w Hlt1)).
    + rewrite (bind_run _ _ _ _ _ (reduceQuantity_accepted this q1 w Hge1)).
      rewrite reduceQuantity_refused; [discriminate|].
      rewrite Es. cbn [p_quantity]. rewrite fsub_exact by lia. lia.
  - assert (Hge1 : q1 <= stock w this) by lia.
    assert (Ef : fadd q1 q2 = q1 + q2) by (apply fadd_exact; lia).
    rewrite Ef.
    rewrite (reduceQuantity_accepted this (q1 + q2) w Hge).
    rewrite (bind_run _ _ _ _ _ (reduceQuantity_accepted this q1 w Hge1)).
    rewrite reduceQuantity_accepted
      by (rewrite Es; cbn [p_quantity]; rewrite fsub_exact by lia; lia).
    cbn [fst snd products]. split; [now split|].
    intros _ r. destruct (Nat.eq_dec r this) as [->|Hne].
    + rewrite !update_same. cbn [p_name p_price p_quantity p_class].
      rewrite Es. cbn [p_quantity].
      rewrite (fsub_exact (stock w this) q1) by lia.
      rewrite !fsub_exact by lia. f_equal. lia.
    + now rewrite !update_other by exact Hne.
Qed.

(** Two TVs and then three, or five at once. *)
Lemma reduceQuantity_twice_witness :
  let w := demoWorld july2025 in
  fst ((Product.reduceQuantity 2%nat 2 ;; Product.reduceQuantity 2%nat 3) w) = Return tt
  /\ products (snd ((Product.reduceQuantity 2%nat 2 ;; Product.reduceQuantity 2%nat 3) w))
              2%nat
     = mkProduct "TV" 300 5 (ShippableProduct 10000).
Proof.
  cbv zeta.
  destruct (reduceQuantity_twice 2%nat 2 3 (demoWorld july2025)) as [Hiff Hsame].
  - discriminate.
  - discriminate.
  - reflexivity.
  - split.
    + apply Hiff. reflexivity.
    + rewrite (Hsame eq_refl 2%nat). reflexivity.
Defined.

(** ** Balances *)

(** The numbers that a checkout leaves are binary64 numbers when those
    it found were. *)
Lemma checkout_doubles (customer : CRef) (ct : cart) (w : world) :
  (forall r, isDouble (stock w r) = true) ->
  (forall c, isDouble (c_balance (customers w c)) = true) ->
  (forall r, isDouble (stock (snd (checkout customer ct w)) r) = true)
  /\ (forall c, isDouble (c_balance (customers (snd (checkout customer ct w)) c)) = true).
Proof.
  intros Hs Hb. split.
  - intro r. destruct (checkout_stock_served customer ct w) as (served & post & _ & E).
    rewrite E. now apply remaining_double.
  - intro c.
    destruct (checkout_cases customer ct w)
      as [[_ E]|[(pre & item & post & _ & _ & _ & _ & _ & _ & Hc & _)
         |[(pre & item & post & _ & _ & _ & _ & _ & _ & _ & Hc & _)
         |[(_ & _ & _ & _ & _ & _ & Hc & _)
          |(_ & _ & _ & _ & _ & _ & Hc & _)]]]].
    + rewrite E. apply Hb.
    + rewrite Hc. apply Hb.
    + rewrite Hc. apply Hb.
    + rewrite Hc. apply Hb.
    + rewrite Hc. destruct (Nat.eq_dec c customer) as [->|Hne].
      * rewrite update_same. apply isDouble_round64.
      * rewrite update_other by exact Hne. apply Hb.
Qed.

(** X14. When no item of the cart has a negative price or a negative
    quantity, a checkout never raises the balance of the customer, a
    binary64 number as every number of the program: it lowers it by
    subtotal plus shipping fee when it returns, and leaves it when it
    throws. *)
Theorem checkout_balance_le (customer : CRef) (ct : cart) (w : world) :
  isDouble (c_balance (customers w customer)) = true ->
  (forall item,
      In item (items ct) ->
      0 <= p_price (products w (i_product item)) /\ 0 <= i_quantity item) ->
  c_balance (customers (snd (checkout customer ct w)) customer)
  <= c_balance (customers w customer).
Proof.
  intros Hd Hpos.
  destruct (checkout_cases customer ct w)
    as [[_ E]|[(pre & item & post & _ & _ & _ & _ & _ & _ & Hc & _)
       |[(pre & item & post & _ & _ & _ & _ & _ & _ & _ & Hc & _)
       |[(_ & _ & _ & _ & _ & _ & Hc & _)
        |(_ & _ & _ & _ & _ & _ & Hc & _)]]]].
  - rewrite E. simpl. lia.
  - rewrite Hc. lia.
  - rewrite Hc. lia.
  - rewrite Hc. lia.
  - rewrite Hc, update_same. cbn [c_balance].
    apply fsub_le; [exact Hd|].
    unfold totalOf. apply fadd_nonneg.
    + unfold subtotalOf, sumOf. apply fold_fadd_nonneg; [lia|].
      intros z Hz. apply in_map_iff in Hz as (item & <- & Hin).
      destruct (Hpos item Hin). unfold itemTotal. now apply fmul_nonneg.
    + unfold shippingFeeOf; destruct (shippableWeightOf w (items ct) >? 0); lia.
Qed.

(** The demonstration. *)
Lemma checkout_balance_le_witness :
  c_balance (customers (snd (checkout 0%nat demoCart (demoWorld july2025))) 0%nat)
  <= 1000.
Proof.
  apply (checkout_balance_le 0%nat demoCart (demoWorld july2025)).
  - reflexivity.
  - intros item [<-|[<-|[<-|[]]]]; split; discriminate.
Defined.
